(** * Charset name resolution of go-message ([charset/charset.go])

    A shallow embedding of package [charset]: the quirks table [charsets],
    the resolver [charsetEncoding], the stream adapters [Reader] and
    [Writer], and the registration hook [RegisterEncoding].

    The package keeps one process-wide map and calls into two index
    packages of golang.org/x/text.  Both are made explicit here: every
    function runs in a small state monad over a [World] that holds the
    table and the log of index queries made so far. *)

From Stdlib Require Import Ascii String NArith.
From stdpp Require Import gmap strings list.

Local Open Scope string_scope.

(** ** Go strings

    A Go string is a sequence of bytes; [string] of the Standard Library
    (a list of [ascii], one per byte) is used for it. *)

Module GoStrings.

(** [c < utf8.RuneSelf], the test [strings.ToLower] uses to detect a
    string made of ASCII bytes only. *)
Definition isASCIIByte (c : ascii) : bool := (N_of_ascii c <? 128)%N.

(** ['A' <= c && c <= 'Z'] *)
Definition isUpperByte (c : ascii) : bool :=
  ((65 <=? N_of_ascii c) && (N_of_ascii c <=? 90))%N.

(** ['a' <= c && c <= 'z'] *)
Definition isLowerByte (c : ascii) : bool :=
  ((97 <=? N_of_ascii c) && (N_of_ascii c <=? 122))%N.

(** [c += 'a' - 'A'] for an upper-case byte. *)
Definition lowerByte (c : ascii) : ascii :=
  if isUpperByte c then ascii_of_N (N_of_ascii c + 32) else c.

(** [c -= 'a' - 'A'] for a lower-case byte. *)
Definition upperByte (c : ascii) : ascii :=
  if isLowerByte c then ascii_of_N (N_of_ascii c - 32) else c.

Fixpoint isASCII (s : string) : bool :=
  match s with
  | EmptyString => true
  | String c s' => isASCIIByte c && isASCII s'
  end.

Fixpoint hasUpper (s : string) : bool :=
  match s with
  | EmptyString => false
  | String c s' => isUpperByte c || hasUpper s'
  end.

Fixpoint mapBytes (f : ascii → ascii) (s : string) : string :=
  match s with
  | EmptyString => EmptyString
  | String c s' => String (f c) (mapBytes f s')
  end.

(** [strings.ToLower] of Go's standard library.  A string of ASCII bytes
    is returned as it is when it has no upper-case letter and lowered
    byte by byte otherwise; any other string goes through
    [strings.Map(unicode.ToLower, s)], whose Unicode tables are not part
    of this repository and which is therefore the argument [mapLower]. *)
Definition ToLower (mapLower : string → string) (s : string) : string :=
  if isASCII s then
    if negb (hasUpper s) then s else mapBytes lowerByte s
  else mapLower s.

(** [s] is [key] written in some letter case: same length, and every
    byte of [s] is the byte of [key] or its upper-case form. *)
Fixpoint caseVariant (s key : string) : bool :=
  match s, key with
  | EmptyString, EmptyString => true
  | String c s', String k key' =>
      (bool_decide (c = k) || bool_decide (c = upperByte k)) && caseVariant s' key'
  | _, _ => false
  end.

(** Every byte of [s] is an ASCII byte that is not an upper-case letter. *)
Fixpoint isLowerASCII (s : string) : bool :=
  match s with
  | EmptyString => true
  | String c s' => isASCIIByte c && negb (isUpperByte c) && isLowerASCII s'
  end.

End GoStrings.

Import GoStrings.

(** ** What the package imports

    The encodings, the two name indices, the stream types and the text
    formatting verbs come from other packages.  They are gathered in one
    interface, so that the model can be run against any implementation of
    them. *)

Class Externals := {
  (** a non-nil [encoding.Encoding] *)
  Encoding : Type;
  (** a non-nil [error] handed back by an index *)
  IndexError : Type;
  (** [io.Reader] and [io.Writer] values *)
  ioReader : Type;
  ioWriter : Type;
  (** [charmap.ISO8859_1] and [unicode.UTF8] *)
  ISO8859_1 : Encoding;
  UTF8 : Encoding;
  (** [ianaindex.MIME.Encoding(name)]: an encoding or nil, and an error or nil *)
  MIME_Encoding : string → option Encoding * option IndexError;
  (** [htmlindex.Get(name)] *)
  htmlindex_Get : string → option Encoding * option IndexError;
  (** [strings.Map(unicode.ToLower, s)], the non-ASCII branch of [strings.ToLower] *)
  mapLower : string → string;
  (** the text [%q] prints for a string *)
  Quote : string → string;
  (** the text [%v] prints for an index error, its [Error()] *)
  Error : IndexError → string;
  (** [enc.NewDecoder().Reader(input)] *)
  NewDecoder_Reader : Encoding → ioReader → ioReader;
  (** [enc.NewEncoder().Writer(writer)] *)
  NewEncoder_Writer : Encoding → ioWriter → ioWriter;
}.

(** ** State and effects *)

(** One call into an index package, with the name it was given. *)
Inductive Query :=
  | QueryMIME (name : string)
  | QueryHTML (name : string).

(** An error built by [fmt.Errorf]: its message. *)
Inductive error := Errorf (msg : string).

Definition errorText (e : error) : string := let 'Errorf msg := e in msg.

(** The package-level variable [charsets] (a nil entry is [Some None]: the
    key is present and the charset disabled), and the queries made so far,
    oldest first. *)
Record World `{Externals} := mkWorld {
  charsets : gmap string (option Encoding);
  queries : list Query;
}.

Inductive Outcome (A : Type) :=
  | Returns (a : A)
  | Panics.
Arguments Returns {A} a.
Arguments Panics {A}.

Definition Go `{Externals} (A : Type) : Type := World → Outcome A * World.

Section Monad.
Context `{Externals}.

#[export] Instance go_ret : MRet Go := λ A a w, (Returns a, w).

#[export] Instance go_bind : MBind Go := λ A B k m w,
  match m w with
  | (Returns a, w') => k a w'
  | (Panics, w') => (Panics, w')
  end.

(** a nil interface value is dereferenced *)
Definition panic {A} : Go A := λ w, (Panics, w).

(** [v, ok := charsets[key]] *)
Definition mapIndex (key : string) : Go (option Encoding * bool) :=
  λ w, (Returns match charsets w !! key with
                | Some v => (v, true)
                | None => (None, false)
                end, w).

(** [charsets[key] = v] *)
Definition mapAssign (key : string) (v : option Encoding) : Go unit :=
  λ w, (Returns tt, mkWorld _ (<[key := v]> (charsets w)) (queries w)).

Definition logged (q : Query) (w : World) : World :=
  mkWorld _ (charsets w) (queries w ++ [q]).

(** a call of [ianaindex.MIME.Encoding] *)
Definition ianaindex_MIME (name : string)
  : Go (option Encoding * option IndexError) :=
  λ w, (Returns (MIME_Encoding name), logged (QueryMIME name) w).

(** a call of [htmlindex.Get] *)
Definition htmlindex (name : string)
  : Go (option Encoding * option IndexError) :=
  λ w, (Returns (htmlindex_Get name), logged (QueryHTML name) w).

End Monad.

(** ** The package *)

Section Package.
Context `{Externals}.

(** [strings.ToLower(s)] *)
Definition strings_ToLower (s : string) : string := ToLower mapLower s.

(** [enc == nil] *)
Definition isNil {A} (v : option A) : bool :=
  match v with None => true | Some _ => false end.

(** [fmt.Errorf("charset %q: charset is disabled", charset)] *)
Definition errDisabled (charset : string) : error :=
  Errorf ("charset " +:+ Quote charset +:+ ": charset is disabled").

(** [fmt.Errorf("charset %q: %v", charset, err)] *)
Definition errLookup (charset : string) (err : IndexError) : error :=
  Errorf ("charset " +:+ Quote charset +:+ ": " +:+ Error err).

(** [fmt.Errorf("charset %q: unsupported charset", charset)] *)
Definition errUnsupported (charset : string) : error :=
  Errorf ("charset " +:+ Quote charset +:+ ": unsupported charset").

(** The checks that follow the last index query (the source's last
    three statements). *)
Definition checked (charset : string)
    (r : option Encoding * option IndexError) : option Encoding * option error :=
  match r with
  | (_, Some e) => (None, Some (errLookup charset e))
  | (None, None) => (None, Some (errUnsupported charset))
  | (Some enc, None) => (Some enc, None)
  end.

(** The table as the package declares it. *)
Definition charsets0 : gmap string (option Encoding) :=
  <["ansi_x3.110-1983" := Some ISO8859_1]> (<["x-utf_8j" := Some UTF8]> ∅).

(** The state of a program that has loaded the package and done nothing
    else. *)
Definition start : World := mkWorld _ charsets0 [].

(** [charsetEncoding] returns the encoding for the provided charset, or
    an error. *)
Definition charsetEncoding (charset : string)
  : Go (option Encoding * option error) :=
  let err : option IndexError := None in
  '(enc, ok) ← mapIndex (strings_ToLower charset);
  if ok && isNil enc then
    mret (None, Some (errDisabled charset))
  else
    '(enc, err) ← (if negb ok then ianaindex_MIME charset else mret (enc, err));
    '(enc, err) ← (if isNil enc then ianaindex_MIME ("cs" +:+ charset)
                   else mret (enc, err));
    '(enc, err) ← (if isNil enc then htmlindex charset else mret (enc, err));
    match err with
    | Some e => mret (None, Some (errLookup charset e))
    | None =>
        if isNil enc then mret (None, Some (errUnsupported charset))
        else mret (enc, None)
    end.

(** [Reader] wraps [input] by the decoder of the charset; a nil [enc]
    with a nil [err] would make the method call panic. *)
Definition Reader (charset : string) (input : ioReader)
  : Go (ioReader * option error) :=
  '(enc, err) ← charsetEncoding charset;
  match err with
  | Some e => mret (input, Some e)
  | None =>
      match enc with
      | Some e => mret (NewDecoder_Reader e input, None)
      | None => panic
      end
  end.

(** [Writer] wraps [writer] by the encoder of the charset. *)
Definition Writer (charset : string) (writer : ioWriter)
  : Go (ioWriter * option error) :=
  '(enc, err) ← charsetEncoding charset;
  match err with
  | Some e => mret (writer, Some e)
  | None =>
      match enc with
      | Some e => mret (NewEncoder_Writer e writer, None)
      | None => panic
      end
  end.

(** [RegisterEncoding] stores [enc], possibly nil, under [name] as given. *)
Definition RegisterEncoding (name : string) (enc : option Encoding) : Go unit :=
  mapAssign name enc.

End Package.

(** ** Programs that use the package

    The package exports [Reader], [Writer] and [RegisterEncoding]; a
    program that uses it makes a sequence of such calls.  [afterCalls]
    gives the state the calls leave behind. *)

Inductive Call `{Externals} :=
  | CallReader (charset : string) (input : ioReader)
  | CallWriter (charset : string) (writer : ioWriter)
  | CallRegisterEncoding (name : string) (enc : option Encoding).

Section Programs.
Context `{Externals}.

Definition afterCall (w : World) (c : Call) : World :=
  match c with
  | CallReader charset input => snd (Reader charset input w)
  | CallWriter charset writer => snd (Writer charset writer w)
  | CallRegisterEncoding name enc => snd (RegisterEncoding name enc w)
  end.

Definition afterCalls (cs : list Call) (w : World) : World :=
  foldl afterCall w cs.

Definition isRegistration (c : Call) : bool :=
  match c with
  | CallRegisterEncoding _ _ => true
  | _ => false
  end.

End Programs.

(** ** A stand-in for the imported packages

    A small implementation of [Externals] on which the model can be run.
    Its indices know a handful of names; each behaves in one of the ways
    the real indices can: an encoding, an error, or neither. *)

Module Sample.

Inductive Enc := Latin1 | Utf8 | ShiftJIS | Windows1252 | Koi8 | Mine.

Inductive Err := InvalidName | Unsupported.

(** Streams are named; a wrapped stream remembers its encoding. *)
Inductive Stream :=
  | Raw (name : string)
  | Wrapped (e : Enc) (inner : Stream).

Definition mime (name : string) : option Enc * option Err :=
  if bool_decide (name = "UTF-8") then (Some Utf8, None)
  else if bool_decide (name = "utf-8") then (Some Utf8, None)
  else if bool_decide (name = "csShiftJIS") then (Some ShiftJIS, None)
  else if bool_decide (name = "x-known-but-missing") then (None, None)
  else if bool_decide (name = "csx-known-but-missing") then (None, None)
  else if bool_decide (name = "x-both") then (Some Koi8, Some Unsupported)
  else (None, Some InvalidName).

Definition html (name : string) : option Enc * option Err :=
  if bool_decide (name = "latin1") then (Some Windows1252, None)
  else if bool_decide (name = "x-known-but-missing") then (None, None)
  else (None, Some InvalidName).

Definition message (e : Err) : string :=
  match e with
  | InvalidName => "invalid encoding name"
  | Unsupported => "unsupported Encoding"
  end.

(** Quoting of a name that needs no escape: the name between two
    double quotes. *)
Definition quote (s : string) : string :=
  String "034"%char (s +:+ String "034"%char EmptyString).

Definition externals : Externals := {|
  Encoding := Enc;
  IndexError := Err;
  ioReader := Stream;
  ioWriter := Stream;
  ISO8859_1 := Latin1;
  UTF8 := Utf8;
  MIME_Encoding := mime;
  htmlindex_Get := html;
  mapLower := λ s, s;
  Quote := quote;
  Error := message;
  NewDecoder_Reader := Wrapped;
  NewEncoder_Writer := Wrapped;
|}.

(** Running a computation of the package from its initial state. *)
Definition run {A} (m : @Go externals A) : Outcome A * @World externals :=
  m (@start externals).

(** A state in which "utf-7" has been disabled. *)
Definition utf7Disabled : @World externals :=
  @mkWorld externals (<["utf-7" := None]> (@charsets0 externals)) [].

End Sample.

(** ** Lowering of ASCII strings *)

Section Lowering.

Lemma lowerByte_variant (c k : ascii) :
  isASCIIByte k = true → isUpperByte k = false →
  c = k ∨ c = upperByte k →
  isASCIIByte c = true ∧ lowerByte c = k.
Proof.
  intros Ha Hu [-> | ->]; revert Ha Hu;
    destruct k as [[] [] [] [] [] [] [] []]; vm_compute; intros; done.
Qed.

Lemma lowerByte_idem (c : ascii) : lowerByte (lowerByte c) = lowerByte c.
Proof. destruct c as [[] [] [] [] [] [] [] []]; reflexivity. Qed.

Lemma lowerByte_ascii (c : ascii) :
  isASCIIByte c = true → isASCIIByte (lowerByte c) = true.
Proof. destruct c as [[] [] [] [] [] [] [] []]; vm_compute; done. Qed.

Lemma lowerByte_not_upper (c : ascii) : isUpperByte (lowerByte c) = false.
Proof. destruct c as [[] [] [] [] [] [] [] []]; reflexivity. Qed.

Lemma lowerByte_fixed (c : ascii) : isUpperByte c = false → lowerByte c = c.
Proof. unfold lowerByte. by intros ->. Qed.

Lemma mapBytes_no_upper (s : string) :
  hasUpper s = false → mapBytes lowerByte s = s.
Proof.
  induction s as [|c s IH]; simpl; [done|].
  intros [Hc Hs]%orb_false_iff. by rewrite lowerByte_fixed, IH.
Qed.

(** On ASCII text the early return of [strings.ToLower] is not
    observable: the result is the bytewise lowering. *)
Lemma ToLower_ascii (f : string → string) (s : string) :
  isASCII s = true → ToLower f s = mapBytes lowerByte s.
Proof.
  intros Ha. unfold ToLower. rewrite Ha.
  destruct (hasUpper s) eqn:Hu; simpl; [done|].
  by rewrite mapBytes_no_upper.
Qed.

Lemma mapBytes_lower_ascii (s : string) :
  isASCII s = true → isASCII (mapBytes lowerByte s) = true.
Proof.
  induction s as [|c s IH]; simpl; [done|].
  intros [Hc Hs]%andb_true_iff. by rewrite lowerByte_ascii, IH.
Qed.

Lemma mapBytes_lower_idem (s : string) :
  mapBytes lowerByte (mapBytes lowerByte s) = mapBytes lowerByte s.
Proof. induction s as [|c s IH]; simpl; [done|]. by rewrite lowerByte_idem, IH. Qed.

Lemma ToLower_idem_ascii (f : string → string) (s : string) :
  isASCII s = true → ToLower f (ToLower f s) = ToLower f s.
Proof.
  intros Ha. rewrite (ToLower_ascii f s Ha).
  rewrite ToLower_ascii by by apply mapBytes_lower_ascii.
  apply mapBytes_lower_idem.
Qed.

Lemma caseVariant_lowered (s key : string) :
  isLowerASCII key = true → caseVariant s key = true →
  isASCII s = true ∧ mapBytes lowerByte s = key.
Proof.
  revert key. induction s as [|c s IH]; intros [|k key]; simpl; try done.
  intros [[Hka Hku]%andb_true_iff Hkey]%andb_true_iff
         [Hc Hs]%andb_true_iff.
  apply negb_true_iff in Hku.
  destruct (IH key Hkey Hs) as [Hsa Hsl].
  assert (c = k ∨ c = upperByte k) as Hck.
  { apply orb_true_iff in Hc as [Hc | Hc]; apply bool_decide_eq_true in Hc; auto. }
  destruct (lowerByte_variant c k Hka Hku Hck) as [Hca Hcl].
  by rewrite Hca, Hsa, Hcl, Hsl.
Qed.

Lemma ToLower_caseVariant (f : string → string) (s key : string) :
  isLowerASCII key = true → caseVariant s key = true → ToLower f s = key.
Proof.
  intros Hk Hv. destruct (caseVariant_lowered s key Hk Hv) as [Ha Hl].
  by rewrite ToLower_ascii.
Qed.

End Lowering.

(** ** How a resolution runs *)

Section Resolution.
Context `{Externals}.

Lemma charsetEncoding_hit (charset : string) (w : World) (v : option Encoding) :
  charsets w !! strings_ToLower charset = Some v →
  charsetEncoding charset w =
    match v with
    | None => (Returns (None, Some (errDisabled charset)), w)
    | Some enc => (Returns (Some enc, None), w)
    end.
Proof.
  intros Hv. unfold charsetEncoding, mbind, go_bind, mret, go_ret, mapIndex.
  rewrite Hv. by destruct v.
Qed.

Lemma charsetEncoding_miss (charset : string) (w : World) :
  charsets w !! strings_ToLower charset = None →
  charsetEncoding charset w =
    let w1 := logged (QueryMIME charset) w in
    let w2 := logged (QueryMIME ("cs" +:+ charset)) w1 in
    let w3 := logged (QueryHTML charset) w2 in
    match MIME_Encoding charset with
    | (Some enc, err) => (Returns (checked charset (Some enc, err)), w1)
    | (None, _) =>
        match MIME_Encoding ("cs" +:+ charset) with
        | (Some enc, err) => (Returns (checked charset (Some enc, err)), w2)
        | (None, _) => (Returns (checked charset (htmlindex_Get charset)), w3)
        end
    end.
Proof.
  intros Hv.
  unfold charsetEncoding, mbind, go_bind, mret, go_ret, mapIndex,
    ianaindex_MIME, htmlindex.
  rewrite Hv. simpl.
  destruct (MIME_Encoding charset) as [[enc1|] err1]; simpl.
  { by destruct err1. }
  destruct (MIME_Encoding ("cs" +:+ charset)) as [[enc2|] err2]; simpl.
  { by destruct err2. }
  by destruct (htmlindex_Get charset) as [[enc3|] [err3|]].
Qed.

(** A resolution hands back an encoding or an error, never both and
    never neither, and does not panic. *)
Lemma charsetEncoding_result (charset : string) (w : World) :
  ∃ w', (∃ enc, charsetEncoding charset w = (Returns (Some enc, None), w'))
      ∨ (∃ e, charsetEncoding charset w = (Returns (None, Some e), w')).
Proof.
  destruct (charsets w !! strings_ToLower charset) as [v|] eqn:Hv.
  - rewrite (charsetEncoding_hit _ _ _ Hv). destruct v; eauto.
  - rewrite (charsetEncoding_miss _ _ Hv). cbv zeta.
    assert (∀ r, (∃ enc, checked charset r = (Some enc, None))
               ∨ (∃ e, checked charset r = (None, Some e))) as Hc.
    { intros [[?|] [?|]]; simpl; eauto. }
    destruct (MIME_Encoding charset) as [[enc1|] err1].
    { destruct (Hc (Some enc1, err1)) as [[? ->] | [? ->]]; eauto. }
    destruct (MIME_Encoding ("cs" +:+ charset)) as [[enc2|] err2].
    { destruct (Hc (Some enc2, err2)) as [[? ->] | [? ->]]; eauto. }
    destruct (Hc (htmlindex_Get charset)) as [[? ->] | [? ->]]; eauto.
Qed.

End Resolution.

(** ** Properties of the package *)

Section Properties.
Context `{Externals}.

(** C1.  When the lowered name is not a key of the table, the indices
    are queried in the order MIME index with the name as given, MIME
    index with the name after the prefix "cs", HTML index with the name
    as given; the queries stop at the first one that hands back an
    encoding, the table is left as it was, and an encoding handed back
    with a nil error is the result. *)
Theorem resolution_query_order (w : World) (charset : string) :
  charsets w !! strings_ToLower charset = None →
  let cs := "cs" +:+ charset in
  let r := charsetEncoding charset w in
  charsets (snd r) = charsets w ∧
  queries (snd r) =
    (queries w ++
       if isNil (fst (MIME_Encoding charset)) then
         if isNil (fst (MIME_Encoding cs)) then
           [QueryMIME charset; QueryMIME cs; QueryHTML charset]
         else [QueryMIME charset; QueryMIME cs]
       else [QueryMIME charset])%list ∧
  (∀ enc, MIME_Encoding charset = (Some enc, None) →
     fst r = Returns (Some enc, None)) ∧
  (∀ enc, fst (MIME_Encoding charset) = None →
     MIME_Encoding cs = (Some enc, None) →
     fst r = Returns (Some enc, None)) ∧
  (∀ enc, fst (MIME_Encoding charset) = None →
     fst (MIME_Encoding cs) = None →
     htmlindex_Get charset = (Some enc, None) →
     fst r = Returns (Some enc, None)).
Proof.
  intros Hmiss cs r. subst r cs.
  rewrite (charsetEncoding_miss _ _ Hmiss). cbv zeta.
  destruct (MIME_Encoding charset) as [[enc1|] err1]; simpl.
  { repeat split; try done.
    - intros enc [= -> ->]. done. }
  destruct (MIME_Encoding ("cs" +:+ charset)) as [[enc2|] err2]; simpl.
  { repeat split; try done.
    - by rewrite <- app_assoc.
    - intros enc _ [= -> ->]. done. }
  repeat split; try done.
  - by rewrite <- !app_assoc.
  - intros enc _ _ ->. done.
Qed.

(** C2.  A name whose lowered form is a key mapped to nil fails with
    the "charset is disabled" error, which quotes the name as it was
    given; a name whose lowered form is a key mapped to an encoding
    resolves to that encoding.  In both cases the world is unchanged:
    no index is queried. *)
Theorem quirks_entry_decides (w : World) (charset : string) :
  (charsets w !! strings_ToLower charset = Some None →
     charsetEncoding charset w =
       (Returns (None, Some (Errorf ("charset " +:+ Quote charset
                                       +:+ ": charset is disabled"))), w)) ∧
  (∀ enc, charsets w !! strings_ToLower charset = Some (Some enc) →
     charsetEncoding charset w = (Returns (Some enc, None), w)).
Proof.
  split.
  - intros Hv. by rewrite (charsetEncoding_hit _ _ _ Hv).
  - intros enc Hv. by rewrite (charsetEncoding_hit _ _ _ Hv).
Qed.

(** C3.  [Reader] and [Writer] never panic.  When the resolution hands
    back an error they return the very stream they were given together
    with that error; otherwise they return the stream wrapped by the
    resolved encoding and a nil error. *)
Theorem adapters_keep_stream_on_failure
    (w : World) (charset : string) (input : ioReader) (writer : ioWriter) :
  ∃ w',
    (∃ e, charsetEncoding charset w = (Returns (None, Some e), w') ∧
          Reader charset input w = (Returns (input, Some e), w') ∧
          Writer charset writer w = (Returns (writer, Some e), w'))
    ∨
    (∃ enc, charsetEncoding charset w = (Returns (Some enc, None), w') ∧
          Reader charset input w =
            (Returns (NewDecoder_Reader enc input, None), w') ∧
          Writer charset writer w =
            (Returns (NewEncoder_Writer enc writer, None), w')).
Proof.
  destruct (charsetEncoding_result charset w) as [w' [[enc Hr] | [e Hr]]];
    exists w'; [right; exists enc | left; exists e];
    unfold Reader, Writer, mbind, go_bind, mret, go_ret; by rewrite Hr.
Qed.

(** C4.  From the table as declared, "ansi_x3.110-1983" written in any
    letter case resolves to ISO-8859-1 and "x-utf_8j" written in any
    letter case resolves to UTF-8, with a nil error and without any
    index query. *)
Theorem seed_names_resolve_in_any_case (charset : string) :
  (caseVariant charset "ansi_x3.110-1983" = true →
     charsetEncoding charset start = (Returns (Some ISO8859_1, None), start)) ∧
  (caseVariant charset "x-utf_8j" = true →
     charsetEncoding charset start = (Returns (Some UTF8, None), start)).
Proof.
  split; intros Hv.
  - apply (charsetEncoding_hit charset start (Some ISO8859_1)).
    unfold strings_ToLower.
    rewrite (ToLower_caseVariant mapLower charset "ansi_x3.110-1983") by done.
    reflexivity.
  - apply (charsetEncoding_hit charset start (Some UTF8)).
    unfold strings_ToLower.
    rewrite (ToLower_caseVariant mapLower charset "x-utf_8j") by done.
    reflexivity.
Qed.

(** C5, amended.  For a name that is its own lowered form, registering
    an encoding and then resolving the name gives the registered
    encoding, whatever the indices hold for that name: no index is
    queried. *)
Theorem registered_lowered_name_resolves
    (w : World) (name : string) (enc : Encoding) :
  strings_ToLower name = name →
  (RegisterEncoding name (Some enc) ≫= λ _, charsetEncoding name) w =
    (Returns (Some enc, None),
     mkWorld _ (<[name := Some enc]> (charsets w)) (queries w)).
Proof.
  intros Hlow.
  unfold RegisterEncoding, mapAssign, mbind at 1, go_bind at 1.
  apply (charsetEncoding_hit name _ (Some enc)). simpl.
  rewrite Hlow. apply lookup_insert_eq.
Qed.

(** C6.  When the lowered name is not a key of the table and each of
    the three index queries hands back neither an encoding nor an
    error, the resolution fails with the "unsupported charset" error,
    which quotes the name as it was given. *)
Theorem silent_indices_give_unsupported (w : World) (charset : string) :
  charsets w !! strings_ToLower charset = None →
  MIME_Encoding charset = (None, None) →
  MIME_Encoding ("cs" +:+ charset) = (None, None) →
  htmlindex_Get charset = (None, None) →
  charsetEncoding charset w =
    (Returns (None, Some (Errorf ("charset " +:+ Quote charset
                                    +:+ ": unsupported charset"))),
     logged (QueryHTML charset)
       (logged (QueryMIME ("cs" +:+ charset))
          (logged (QueryMIME charset) w))).
Proof.
  intros Hmiss H1 H2 H3.
  rewrite (charsetEncoding_miss _ _ Hmiss). cbv zeta.
  by rewrite H1, H2, H3.
Qed.


(** C9.  [RegisterEncoding] always returns.  Afterwards the table maps
    the name, exactly as it was given, to the registered value, whether
    or not the name was a key before; every other key, the two declared
    ones among them, is mapped as before, and no index was queried. *)
Theorem RegisterEncoding_changes_one_entry
    (w : World) (name : string) (enc : option Encoding) :
  ∃ w', RegisterEncoding name enc w = (Returns tt, w') ∧
    charsets w' !! name = Some enc ∧
    (∀ key, key ≠ name → charsets w' !! key = charsets w !! key) ∧
    queries w' = queries w.
Proof.
  eexists. split; [reflexivity|]. simpl. repeat split.
  - apply lookup_insert_eq.
  - intros key Hne. by apply lookup_insert_ne.
Qed.

(** C10.  Registering nil under a name disables it: a later resolution
    of any name whose lowered form is the registered key fails with the
    "charset is disabled" error, which quotes the name being resolved,
    and queries no index, whatever the indices hold for it. *)
Theorem nil_registration_disables (w : World) (name charset : string) :
  strings_ToLower charset = name →
  (RegisterEncoding name None ≫= λ _, charsetEncoding charset) w =
    (Returns (None, Some (Errorf ("charset " +:+ Quote charset
                                    +:+ ": charset is disabled"))),
     mkWorld _ (<[name := None]> (charsets w)) (queries w)).
Proof.
  intros Hlow.
  unfold RegisterEncoding, mapAssign, mbind at 1, go_bind at 1.
  apply (charsetEncoding_hit charset _ None). simpl.
  rewrite Hlow. apply lookup_insert_eq.
Qed.

End Properties.

(** ** The package run on the stand-in *)

Section Runs.
#[local] Existing Instance Sample.externals.

Lemma resolution_query_order_witness :
  charsets start !! strings_ToLower "ShiftJIS" = None ∧
  queries (snd (charsetEncoding "ShiftJIS" start))
    = [QueryMIME "ShiftJIS"; QueryMIME "csShiftJIS"] ∧
  fst (charsetEncoding "ShiftJIS" start) = Returns (Some Sample.ShiftJIS, None).
Proof.
  assert (charsets start !! strings_ToLower "ShiftJIS" = None) as Hmiss
    by (vm_compute; reflexivity).
  destruct (resolution_query_order (H := Sample.externals) start "ShiftJIS" Hmiss)
    as (_ & Hq & _ & Hcs & _).
  split; [exact Hmiss|]. split; [exact Hq|].
  apply Hcs; vm_compute; reflexivity.
Defined.

Lemma quirks_entry_decides_witness :
  charsetEncoding "UTF-7" Sample.utf7Disabled
    = (Returns (None, Some (Errorf ("charset " +:+ Sample.quote "UTF-7"
                                     +:+ ": charset is disabled"))),
       Sample.utf7Disabled) ∧
  charsetEncoding "X-UTF_8J" start = (Returns (Some Sample.Utf8, None), start).
Proof.
  split.
  - apply (proj1 (quirks_entry_decides (H := Sample.externals) Sample.utf7Disabled "UTF-7")).
    vm_compute; reflexivity.
  - apply (proj2 (quirks_entry_decides (H := Sample.externals) start "X-UTF_8J")).
    vm_compute; reflexivity.
Defined.

Lemma seed_names_resolve_in_any_case_witness :
  charsetEncoding "ANSI_x3.110-1983" start
    = (Returns (Some Sample.Latin1, None), start) ∧
  charsetEncoding "X-Utf_8J" start = (Returns (Some Sample.Utf8, None), start).
Proof.
  split.
  - apply (proj1 (seed_names_resolve_in_any_case (H := Sample.externals) "ANSI_x3.110-1983")).
    vm_compute; reflexivity.
  - apply (proj2 (seed_names_resolve_in_any_case (H := Sample.externals) "X-Utf_8J")).
    vm_compute; reflexivity.
Defined.

(** C5 as stated fails: "UTF-8" is registered under that very key, and
    resolving "UTF-8" looks up "utf-8", misses, and takes the encoding
    of the MIME index. *)
Lemma registered_name_with_capitals_counterexample :
  fst (Sample.run (RegisterEncoding "UTF-8" (Some Sample.Mine)
                     ≫= λ _, charsetEncoding "UTF-8"))
    = Returns (Some Sample.Utf8, None) ∧
  queries (snd (Sample.run (RegisterEncoding "UTF-8" (Some Sample.Mine)
                              ≫= λ _, charsetEncoding "UTF-8")))
    = [QueryMIME "UTF-8"] ∧
  fst (Sample.run (RegisterEncoding "UTF-8" (Some Sample.Mine)
                     ≫= λ _, charsetEncoding "UTF-8"))
    ≠ Returns (Some Sample.Mine, None).
Proof. vm_compute. repeat split; discriminate. Qed.

Lemma registered_lowered_name_resolves_witness :
  strings_ToLower "utf-8" = "utf-8" ∧
  MIME_Encoding "utf-8" = (Some Sample.Utf8, None) ∧
  fst (Sample.run (RegisterEncoding "utf-8" (Some Sample.Mine)
                     ≫= λ _, charsetEncoding "utf-8"))
    = Returns (Some Sample.Mine, None).
Proof.
  split; [reflexivity|]. split; [reflexivity|].
  assert (strings_ToLower "utf-8" = "utf-8") as Hlow by reflexivity.
  exact (f_equal fst
           (registered_lowered_name_resolves (H := Sample.externals)
              start "utf-8" Sample.Mine Hlow)).
Defined.

Lemma silent_indices_give_unsupported_witness :
  charsets start !! strings_ToLower "x-known-but-missing" = None ∧
  MIME_Encoding "x-known-but-missing" = (None, None) ∧
  MIME_Encoding "csx-known-but-missing" = (None, None) ∧
  htmlindex_Get "x-known-but-missing" = (None, None) ∧
  fst (charsetEncoding "x-known-but-missing" start)
    = Returns (None, Some (Errorf ("charset " +:+ Sample.quote "x-known-but-missing"
                                     +:+ ": unsupported charset"))).
Proof.
  assert (charsets start !! strings_ToLower "x-known-but-missing" = None)
    as Hmiss by (vm_compute; reflexivity).
  repeat (split; [first [exact Hmiss | reflexivity]|]).
  rewrite (silent_indices_give_unsupported (H := Sample.externals)
             start "x-known-but-missing" Hmiss);
    reflexivity.
Defined.



Lemma RegisterEncoding_changes_one_entry_witness :
  charsets (snd (Sample.run (RegisterEncoding "koi8-r" (Some Sample.Koi8))))
    !! "koi8-r" = Some (Some Sample.Koi8) ∧
  charsets (snd (Sample.run (RegisterEncoding "koi8-r" (Some Sample.Koi8))))
    !! "x-utf_8j" = Some (Some Sample.Utf8).
Proof.
  unfold Sample.run.
  destruct (RegisterEncoding_changes_one_entry (H := Sample.externals) start "koi8-r" (Some Sample.Koi8))
    as (w' & -> & Hname & Hother & _).
  split; [exact Hname|].
  simpl. rewrite Hother; [reflexivity | discriminate].
Defined.

Lemma nil_registration_disables_witness :
  MIME_Encoding "UTF-8" = (Some Sample.Utf8, None) ∧
  Sample.run (RegisterEncoding "utf-8" None ≫= λ _, charsetEncoding "UTF-8")
    = (Returns (None, Some (Errorf ("charset " +:+ Sample.quote "UTF-8"
                                      +:+ ": charset is disabled"))),
       mkWorld _ (<["utf-8" := None]> charsets0) []).
Proof.
  split; [reflexivity|].
  apply (nil_registration_disables (H := Sample.externals) start "utf-8" "UTF-8").
  reflexivity.
Defined.

End Runs.

(** ** What a resolution reads and writes *)

Section Footprint.
Context `{Externals}.

Lemma world_eta (w : World) : mkWorld _ (charsets w) (queries w ++ []) = w.
Proof. destruct w as [t q]. simpl. by rewrite app_nil_r. Qed.

(** A resolution reads one entry of the table and nothing else of the
    state: two states that agree on that entry give the same result and
    the same new queries, and each keeps its own table. *)
Lemma charsetEncoding_footprint (charset : string) (w w' : World) :
  charsets w !! strings_ToLower charset = charsets w' !! strings_ToLower charset →
  ∃ r qs,
    charsetEncoding charset w = (r, mkWorld _ (charsets w) (queries w ++ qs)) ∧
    charsetEncoding charset w' = (r, mkWorld _ (charsets w') (queries w' ++ qs)) ∧
    (List.length qs ≤ 3)%nat ∧
    (qs = [] ↔ is_Some (charsets w !! strings_ToLower charset)).
Proof.
  intros Hsame.
  destruct (charsets w !! strings_ToLower charset) as [v|] eqn:Hv.
  - rewrite (charsetEncoding_hit charset w v Hv).
    rewrite (charsetEncoding_hit charset w' v) by done.
    exists (match v with
            | None => Returns (None, Some (errDisabled charset))
            | Some enc => Returns (Some enc, None)
            end), [].
    rewrite !world_eta. destruct v; simpl; repeat split; eauto with lia.
  - rewrite (charsetEncoding_miss charset w Hv).
    rewrite (charsetEncoding_miss charset w') by done.
    cbv zeta. unfold logged. simpl.
    destruct (MIME_Encoding charset) as [[enc1|] err1].
    { eexists _, [_]. repeat split; simpl; try lia; try done. }
    destruct (MIME_Encoding ("cs" +:+ charset)) as [[enc2|] err2].
    { eexists _, [_; _]. rewrite <- !app_assoc.
      repeat split; simpl; try lia; try done. }
    eexists _, [_; _; _]. rewrite <- !app_assoc.
    repeat split; simpl; try lia; try done.
Qed.

Lemma charsetEncoding_world (charset : string) (w : World) :
  ∃ qs, snd (charsetEncoding charset w)
          = mkWorld _ (charsets w) (queries w ++ qs) ∧
        (List.length qs ≤ 3)%nat ∧
        (qs = [] ↔ is_Some (charsets w !! strings_ToLower charset)).
Proof.
  destruct (charsetEncoding_footprint charset w w eq_refl)
    as (r & qs & Hr & _ & Hlen & Hnil).
  exists qs. by rewrite Hr.
Qed.

Lemma Reader_world (charset : string) (input : ioReader) (w : World) :
  snd (Reader charset input w) = snd (charsetEncoding charset w).
Proof.
  unfold Reader, mbind, go_bind, mret, go_ret.
  by destruct (charsetEncoding_result charset w) as [w' [[enc ->] | [e ->]]].
Qed.

Lemma Writer_world (charset : string) (writer : ioWriter) (w : World) :
  snd (Writer charset writer w) = snd (charsetEncoding charset w).
Proof.
  unfold Writer, mbind, go_bind, mret, go_ret.
  by destruct (charsetEncoding_result charset w) as [w' [[enc ->] | [e ->]]].
Qed.

Lemma app_eq_self_nil {A} (l qs : list A) : (l ++ qs)%list = l → qs = [].
Proof.
  intros Heq. apply (f_equal List.length) in Heq. rewrite length_app in Heq.
  destruct qs; [done|]. simpl in Heq. lia.
Qed.

Lemma ToLower_ascii_no_upper (f : string → string) (s : string) :
  isASCII s = true → hasUpper (ToLower f s) = false.
Proof.
  intros Ha. rewrite (ToLower_ascii f s Ha). clear Ha.
  induction s as [|c s IH]; simpl; [done|].
  by rewrite lowerByte_not_upper, IH.
Qed.

End Footprint.

(** ** Letter case in the table step *)

Section LetterCase.
Context `{Externals}.

(** The three outcomes of the table step, read off what [charsetEncoding]
    returns and the state it leaves: an encoding and an untouched state
    is a non-nil entry, the disabled error and an untouched state is a
    nil entry, a longer query log is a miss. *)
Lemma charsetEncoding_found_iff (charset : string) (w : World) (enc : Encoding) :
  charsetEncoding charset w = (Returns (Some enc, None), w)
    ↔ charsets w !! strings_ToLower charset = Some (Some enc).
Proof.
  split; [|intros Hv; by rewrite (charsetEncoding_hit _ _ _ Hv)].
  intros Hrun.
  destruct (charsetEncoding_world charset w) as (qs & Hw & _ & Hnil).
  rewrite Hrun in Hw. simpl in Hw.
  assert (qs = []) as Hqs.
  { apply (app_eq_self_nil (queries w)).
    apply (f_equal queries) in Hw. simpl in Hw. by symmetry. }
  apply Hnil in Hqs as [v Hv].
  rewrite (charsetEncoding_hit _ _ _ Hv) in Hrun.
  destruct v; by simplify_eq.
Qed.

Lemma charsetEncoding_disabled_iff (charset : string) (w : World) :
  charsetEncoding charset w = (Returns (None, Some (errDisabled charset)), w)
    ↔ charsets w !! strings_ToLower charset = Some None.
Proof.
  split; [|intros Hv; by rewrite (charsetEncoding_hit _ _ _ Hv)].
  intros Hrun.
  destruct (charsetEncoding_world charset w) as (qs & Hw & _ & Hnil).
  rewrite Hrun in Hw. simpl in Hw.
  assert (qs = []) as Hqs.
  { apply (app_eq_self_nil (queries w)).
    apply (f_equal queries) in Hw. simpl in Hw. by symmetry. }
  apply Hnil in Hqs as [v Hv].
  rewrite (charsetEncoding_hit _ _ _ Hv) in Hrun.
  destruct v; by simplify_eq.
Qed.

Lemma charsetEncoding_quiet_iff (charset : string) (w : World) :
  queries (snd (charsetEncoding charset w)) = queries w
    ↔ is_Some (charsets w !! strings_ToLower charset).
Proof.
  destruct (charsetEncoding_world charset w) as (qs & Hw & _ & Hnil).
  rewrite Hw. simpl. rewrite <- Hnil. split.
  - apply app_eq_self_nil.
  - intros ->. apply app_nil_r.
Qed.

Lemma strings_ToLower_idem (charset : string) :
  isASCII charset = true
    ∨ strings_ToLower (mapLower charset) = mapLower charset →
  strings_ToLower (strings_ToLower charset) = strings_ToLower charset.
Proof.
  intros Hlow. unfold strings_ToLower in *.
  destruct (isASCII charset) eqn:Ha.
  - by apply ToLower_idem_ascii.
  - destruct Hlow as [? | Hlow]; [done|].
    assert (ToLower mapLower charset = mapLower charset) as ->
      by (unfold ToLower; by rewrite Ha).
    exact Hlow.
Qed.

(** C8.  The table step of [charsetEncoding] does not see letter case.

    - A name and any other name with the same lowered form, and so (for
      a name of ASCII bytes, or when the Unicode lowering of the
      standard library leaves its own result unchanged) the name and its
      lowered form, get the same outcome from the table: the same
      encoding from a non-nil entry, the disabled error (each quoting
      the name it was asked for) from a nil entry, or a miss that goes
      on to the indices.
    - An entry is the one found exactly when its key is the lowered
      name: with that key it decides the resolution and no index is
      queried; with any other key it can be deleted without changing the
      result or the queries.
    - For a key of ASCII bytes without upper-case letters, every way of
      writing the key in upper and lower case is decided by the entry
      under the key, and misses the table when the key is absent. *)
Theorem quirks_lookup_ignores_case (w : World) (charset : string) :
  let lowered := strings_ToLower charset in
  (∀ other,
     strings_ToLower other = lowered
       ∨ (other = lowered ∧
          (isASCII charset = true
             ∨ strings_ToLower (mapLower charset) = mapLower charset)) →
     (∀ enc, charsetEncoding charset w = (Returns (Some enc, None), w)
               ↔ charsetEncoding other w = (Returns (Some enc, None), w)) ∧
     (charsetEncoding charset w
        = (Returns (None, Some (errDisabled charset)), w)
      ↔ charsetEncoding other w
        = (Returns (None, Some (errDisabled other)), w)) ∧
     (queries (snd (charsetEncoding charset w)) = queries w
      ↔ queries (snd (charsetEncoding other w)) = queries w)) ∧
  (∀ key v, charsets w !! key = Some v →
     (key = lowered →
        charsetEncoding charset w =
          (match v with
           | Some enc => Returns (Some enc, None)
           | None => Returns (None, Some (errDisabled charset))
           end, w)) ∧
     (key ≠ lowered →
        let without := mkWorld _ (delete key (charsets w)) (queries w) in
        fst (charsetEncoding charset without)
          = fst (charsetEncoding charset w) ∧
        queries (snd (charsetEncoding charset without))
          = queries (snd (charsetEncoding charset w)))) ∧
  (∀ key, isLowerASCII key = true → caseVariant charset key = true →
     (∀ v, charsets w !! key = Some v →
        charsetEncoding charset w =
          (match v with
           | Some enc => Returns (Some enc, None)
           | None => Returns (None, Some (errDisabled charset))
           end, w)) ∧
     (charsets w !! key = None →
        queries (snd (charsetEncoding charset w)) ≠ queries w)).
Proof.
  intros lowered. subst lowered. split; [|split].
  - intros other Hother.
    assert (strings_ToLower other = strings_ToLower charset) as Hsame.
    { destruct Hother as [? | [-> Hidem]]; [done|].
      by apply strings_ToLower_idem. }
    split; [|split].
    + intros enc. by rewrite !charsetEncoding_found_iff, Hsame.
    + by rewrite !charsetEncoding_disabled_iff, Hsame.
    + by rewrite !charsetEncoding_quiet_iff, Hsame.
  - intros key v Hkey. split.
    + intros ->. rewrite (charsetEncoding_hit _ _ _ Hkey). by destruct v.
    + intros Hne without. subst without.
      destruct (charsetEncoding_footprint charset
                  (mkWorld _ (delete key (charsets w)) (queries w)) w)
        as (r & qs & -> & -> & _); [|done].
      simpl. by apply lookup_delete_ne.
  - intros key Hkey Hvar.
    assert (strings_ToLower charset = key) as Hlow
      by (by apply ToLower_caseVariant).
    split.
    + intros v Hv. rewrite (charsetEncoding_hit charset w v).
      * by destruct v.
      * by rewrite Hlow.
    + intros Hnone Hquiet. apply charsetEncoding_quiet_iff in Hquiet.
      rewrite Hlow, Hnone in Hquiet. by destruct Hquiet.
Qed.

End LetterCase.

(** ** Further properties of the package *)

Section Further.
Context `{Externals}.

(** X1.  A resolution never writes to the table: it leaves [charsets] as
    it found it and only appends to the query log, at most three
    queries.  [Reader] and [Writer] leave exactly the state the
    resolution they start with leaves. *)
Theorem resolution_preserves_table
    (w : World) (charset : string) (input : ioReader) (writer : ioWriter) :
  charsets (snd (charsetEncoding charset w)) = charsets w ∧
  (∃ qs, queries (snd (charsetEncoding charset w)) = (queries w ++ qs)%list ∧
         (List.length qs ≤ 3)%nat) ∧
  snd (Reader charset input w) = snd (charsetEncoding charset w) ∧
  snd (Writer charset writer w) = snd (charsetEncoding charset w).
Proof.
  destruct (charsetEncoding_world charset w) as (qs & Hw & Hlen & _).
  rewrite Reader_world, Writer_world, Hw. simpl. eauto 6.
Qed.

(** X2.  The indices are left alone exactly when the table decides: a
    resolution adds no query to the log if and only if the lowered name
    is a key of the table. *)
Theorem no_query_iff_table_hit (w : World) (charset : string) :
  is_Some (charsets w !! strings_ToLower charset)
    ↔ queries (snd (charsetEncoding charset w)) = queries w.
Proof.
  destruct (charsetEncoding_world charset w) as (qs & Hw & _ & Hnil).
  rewrite Hw. simpl. split.
  - intros Hhit. apply Hnil in Hhit. subst qs. apply app_nil_r.
  - intros Hq. apply Hnil. by apply (app_eq_self_nil (queries w)).
Qed.

(** X3.  When the lowered name is not a key of the table, the resolution
    succeeds with an encoding exactly when the first index query that
    hands back an encoding hands back that encoding with a nil error:
    the MIME index for the name, else the MIME index for "cs" followed by
    the name, else the HTML index for the name. *)
Theorem success_on_miss_characterised
    (w : World) (charset : string) (enc : Encoding) :
  charsets w !! strings_ToLower charset = None →
  let cs := "cs" +:+ charset in
  fst (charsetEncoding charset w) = Returns (Some enc, None)
  ↔ MIME_Encoding charset = (Some enc, None)
    ∨ (fst (MIME_Encoding charset) = None ∧
       MIME_Encoding cs = (Some enc, None))
    ∨ (fst (MIME_Encoding charset) = None ∧
       fst (MIME_Encoding cs) = None ∧
       htmlindex_Get charset = (Some enc, None)).
Proof.
  intros Hmiss cs. subst cs.
  rewrite (charsetEncoding_miss _ _ Hmiss). cbv zeta.
  destruct (MIME_Encoding charset) as [[enc1|] [err1|]]; simpl;
    try (split; [intros [=] | intros [[=] | [[[=] _] | [[=] _]]]]; done).
  { split; [intros [= ->]; by left | intros [[= ->] | [[[=] _] | [[=] _]]]; done]. }
  all: destruct (MIME_Encoding ("cs" +:+ charset)) as [[enc2|] [err2|]]; simpl;
    try (split; [intros [=] | intros [[=] | [[_ [=]] | [_ [[=] _]]]]]; done).
  all: try (split; [intros [= ->]; right; left; done
                   | intros [[=] | [[_ [= ->]] | [_ [[=] _]]]]; done]).
  all: destruct (htmlindex_Get charset) as [[enc3|] [err3|]]; simpl;
    try (split; [intros [=] | intros [[=] | [[_ [=]] | [_ [_ [=]]]]]]; done).
  all: split; [intros [= ->]; right; right; done
              | intros [[=] | [[_ [=]] | [_ [_ [= ->]]]]]; done].
Qed.

(** X4.  A resolution returns, and what it returns is either an encoding
    with a nil error, or a nil encoding with an error whose message
    starts with the word charset, the quoted name as it was given and a
    colon.  It never hands back nil with nil, nor an encoding with an
    error. *)
Theorem resolution_result_shape (w : World) (charset : string) :
  (∃ enc, fst (charsetEncoding charset w) = Returns (Some enc, None))
  ∨ (∃ reason,
       fst (charsetEncoding charset w)
         = Returns (None, Some (Errorf ("charset " +:+ Quote charset
                                          +:+ ": " +:+ reason)))).
Proof.
  assert (∀ r, (∃ enc, checked charset r = (Some enc, None))
             ∨ (∃ reason, checked charset r
                  = (None, Some (Errorf ("charset " +:+ Quote charset
                                           +:+ ": " +:+ reason))))) as Hc.
  { intros [[?|] [?|]]; simpl; unfold errLookup, errUnsupported; eauto. }
  destruct (charsets w !! strings_ToLower charset) as [v|] eqn:Hv.
  - rewrite (charsetEncoding_hit _ _ _ Hv).
    destruct v; simpl; unfold errDisabled; eauto.
  - rewrite (charsetEncoding_miss _ _ Hv). cbv zeta.
    destruct (MIME_Encoding charset) as [[enc1|] err1].
    { destruct (Hc (Some enc1, err1)) as [[? ->] | [? ->]]; eauto. }
    destruct (MIME_Encoding ("cs" +:+ charset)) as [[enc2|] err2].
    { destruct (Hc (Some enc2, err2)) as [[? ->] | [? ->]]; eauto. }
    destruct (Hc (htmlindex_Get charset)) as [[? ->] | [? ->]]; eauto.
Qed.

(** X5.  The last registration under a key decides: after two
    registrations under the same key, a name whose lowered form is that
    key resolves by the second value alone (its encoding, or the
    disabled error when it is nil), the table holds the second value, and
    no index is queried.  So a disabled name can be enabled again, and an
    enabled one disabled. *)
Theorem last_registration_wins
    (w : World) (name charset : string) (first second : option Encoding) :
  strings_ToLower charset = name →
  (RegisterEncoding name first ≫= λ _,
     RegisterEncoding name second ≫= λ _, charsetEncoding charset) w =
    (match second with
     | Some enc => Returns (Some enc, None)
     | None => Returns (None, Some (errDisabled charset))
     end,
     mkWorld _ (<[name := second]> (charsets w)) (queries w)).
Proof.
  intros Hlow.
  unfold RegisterEncoding, mapAssign.
  unfold mbind at 1, go_bind at 1. unfold mbind at 1, go_bind at 1. simpl.
  rewrite insert_insert_eq.
  rewrite (charsetEncoding_hit charset _ second).
  - by destruct second.
  - simpl. rewrite Hlow. apply lookup_insert_eq.
Qed.

(** X6.  A registration under a key other than the lowered name is not
    seen by the resolution of that name: the result and the queries made
    are what they were without the registration. *)
Theorem unrelated_registration_is_invisible
    (w : World) (name charset : string) (enc : option Encoding) :
  name ≠ strings_ToLower charset →
  let w' := snd (RegisterEncoding name enc w) in
  fst (charsetEncoding charset w') = fst (charsetEncoding charset w) ∧
  queries (snd (charsetEncoding charset w'))
    = queries (snd (charsetEncoding charset w)).
Proof.
  intros Hne w'. subst w'.
  destruct (charsetEncoding_footprint charset
              (snd (RegisterEncoding name enc w)) w)
    as (r & qs & -> & -> & _).
  - simpl. by apply lookup_insert_ne.
  - done.
Qed.

(** X7.  A key that holds an upper-case ASCII letter is dead for ASCII
    names: whatever is registered under it, no name made of ASCII bytes
    is resolved through it, in any letter case. *)
Theorem key_with_capital_never_matches
    (w : World) (name charset : string) (enc : option Encoding) :
  hasUpper name = true →
  isASCII charset = true →
  let w' := snd (RegisterEncoding name enc w) in
  fst (charsetEncoding charset w') = fst (charsetEncoding charset w) ∧
  queries (snd (charsetEncoding charset w'))
    = queries (snd (charsetEncoding charset w)).
Proof.
  intros Hup Ha w'. subst w'.
  assert (name ≠ strings_ToLower charset) as Hne.
  { intros ->. unfold strings_ToLower in Hup.
    by rewrite ToLower_ascii_no_upper in Hup. }
  destruct (charsetEncoding_footprint charset
              (snd (RegisterEncoding name enc w)) w)
    as (r & qs & -> & -> & _).
  - simpl. by apply lookup_insert_ne.
  - done.
Qed.

(** X8.  A key of ASCII bytes without upper-case letters is matched in
    every letter case: after a registration under such a key, every case
    variant of the key resolves by the registered value, with no index
    query. *)
Theorem registered_key_matches_any_case
    (w : World) (key charset : string) (enc : option Encoding) :
  isLowerASCII key = true →
  caseVariant charset key = true →
  (RegisterEncoding key enc ≫= λ _, charsetEncoding charset) w =
    (match enc with
     | Some e => Returns (Some e, None)
     | None => Returns (None, Some (errDisabled charset))
     end,
     mkWorld _ (<[key := enc]> (charsets w)) (queries w)).
Proof.
  intros Hkey Hvar.
  unfold RegisterEncoding, mapAssign, mbind at 1, go_bind at 1.
  rewrite (charsetEncoding_hit charset _ enc).
  - by destruct enc.
  - simpl. unfold strings_ToLower.
    rewrite (ToLower_caseVariant mapLower charset key Hkey Hvar).
    apply lookup_insert_eq.
Qed.

(** X9.  Nothing is cached: a resolution does not change what a later
    resolution returns, and the later one makes its index queries again.
    The log after both is the log before, the queries of the first and
    the queries the second makes on its own. *)
Theorem resolution_is_not_cached (w : World) (first second : string) :
  let w1 := snd (charsetEncoding first w) in
  fst (charsetEncoding second w1) = fst (charsetEncoding second w) ∧
  ∃ q1 q2,
    queries w1 = (queries w ++ q1)%list ∧
    queries (snd (charsetEncoding second w)) = (queries w ++ q2)%list ∧
    queries (snd (charsetEncoding second w1)) = (queries w ++ q1 ++ q2)%list.
Proof.
  intros w1. subst w1.
  destruct (charsetEncoding_world first w) as (q1 & Hw1 & _).
  rewrite Hw1.
  destruct (charsetEncoding_footprint second
              (mkWorld _ (charsets w) (queries w ++ q1)) w)
    as (r & q2 & -> & -> & _); [done|].
  simpl. split; [done|]. exists q1, q2. by rewrite app_assoc.
Qed.

(** X10.  Over any sequence of calls of the exported functions the table
    only grows in keys and the query log only grows at its end: no call
    removes a key, and no call drops or rewrites a logged query. *)
Theorem table_keys_only_grow (cs : list Call) (w : World) :
  dom (charsets w) ⊆ dom (charsets (afterCalls cs w)) ∧
  queries w `prefix_of` queries (afterCalls cs w).
Proof.
  unfold afterCalls. revert w.
  induction cs as [|c cs IH]; intros w; simpl; [done|].
  destruct (IH (afterCall w c)) as [Hdom Hlog].
  assert (dom (charsets w) ⊆ dom (charsets (afterCall w c)) ∧
          queries w `prefix_of` queries (afterCall w c)) as [Hd Hl].
  { destruct c as [charset input | charset writer | name enc]; simpl.
    - rewrite Reader_world.
      destruct (charsetEncoding_world charset w) as (qs & -> & _).
      simpl. split; [done | by exists qs].
    - rewrite Writer_world.
      destruct (charsetEncoding_world charset w) as (qs & -> & _).
      simpl. split; [done | by exists qs].
    - split; [|done]. rewrite dom_insert_L. apply union_subseteq_r. }
  split; by etrans.
Qed.

(** X11.  Only [RegisterEncoding] writes to the table: after any
    sequence of [Reader] and [Writer] calls the table is the one the
    sequence started with. *)
Theorem adapters_leave_table_unchanged (cs : list Call) (w : World) :
  forallb (λ c, negb (isRegistration c)) cs = true →
  charsets (afterCalls cs w) = charsets w.
Proof.
  unfold afterCalls. revert w.
  induction cs as [|c cs IH]; intros w; simpl; [done|].
  intros [Hc Hcs]%andb_true_iff. rewrite (IH _ Hcs).
  destruct c as [charset input | charset writer | name enc]; simpl.
  - rewrite Reader_world.
    by destruct (charsetEncoding_world charset w) as (qs & -> & _).
  - rewrite Writer_world.
    by destruct (charsetEncoding_world charset w) as (qs & -> & _).
  - discriminate.
Qed.

End Further.

(** ** The further properties on the stand-in *)

Section FurtherRuns.
#[local] Existing Instance Sample.externals.

Lemma no_query_iff_table_hit_witness :
  is_Some (charsets start !! strings_ToLower "X-UTF_8J") ∧
  queries (snd (charsetEncoding "X-UTF_8J" start)) = queries start.
Proof.
  assert (is_Some (charsets start !! strings_ToLower "X-UTF_8J")) as Hhit
    by (vm_compute; eauto).
  split; [exact Hhit|].
  exact (proj1 (no_query_iff_table_hit (H := Sample.externals)
                  start "X-UTF_8J") Hhit).
Defined.

Lemma success_on_miss_characterised_witness :
  charsets start !! strings_ToLower "ShiftJIS" = None ∧
  MIME_Encoding "csShiftJIS" = (Some Sample.ShiftJIS, None) ∧
  fst (charsetEncoding "ShiftJIS" start) = Returns (Some Sample.ShiftJIS, None).
Proof.
  assert (charsets start !! strings_ToLower "ShiftJIS" = None) as Hmiss
    by (vm_compute; reflexivity).
  split; [exact Hmiss|]. split; [reflexivity|].
  apply (proj2 (success_on_miss_characterised (H := Sample.externals)
                  start "ShiftJIS" Sample.ShiftJIS Hmiss)).
  right. left. split; reflexivity.
Defined.

Lemma last_registration_wins_witness :
  strings_ToLower "UTF-8" = "utf-8" ∧
  fst (Sample.run (RegisterEncoding "utf-8" None ≫= λ _,
                     RegisterEncoding "utf-8" (Some Sample.Mine) ≫= λ _,
                       charsetEncoding "UTF-8"))
    = Returns (Some Sample.Mine, None).
Proof.
  assert (strings_ToLower "UTF-8" = "utf-8") as Hlow by reflexivity.
  split; [exact Hlow|].
  exact (f_equal fst
           (last_registration_wins (H := Sample.externals)
              start "utf-8" "UTF-8" None (Some Sample.Mine) Hlow)).
Defined.

Lemma unrelated_registration_is_invisible_witness :
  "koi8-r" ≠ strings_ToLower "UTF-8" ∧
  fst (charsetEncoding "UTF-8"
         (snd (RegisterEncoding "koi8-r" (Some Sample.Koi8) start)))
    = fst (charsetEncoding "UTF-8" start).
Proof.
  assert ("koi8-r" ≠ strings_ToLower "UTF-8") as Hne
    by (vm_compute; discriminate).
  split; [exact Hne|].
  exact (proj1 (unrelated_registration_is_invisible (H := Sample.externals)
                  start "koi8-r" "UTF-8" (Some Sample.Koi8) Hne)).
Defined.

Lemma key_with_capital_never_matches_witness :
  hasUpper "UTF-8" = true ∧ isASCII "utf-8" = true ∧
  fst (charsetEncoding "utf-8"
         (snd (RegisterEncoding "UTF-8" (Some Sample.Mine) start)))
    = fst (charsetEncoding "utf-8" start).
Proof.
  split; [reflexivity|]. split; [reflexivity|].
  exact (proj1 (key_with_capital_never_matches (H := Sample.externals)
                  start "UTF-8" "utf-8" (Some Sample.Mine)
                  eq_refl eq_refl)).
Defined.

Lemma registered_key_matches_any_case_witness :
  isLowerASCII "koi8-r" = true ∧ caseVariant "KOI8-r" "koi8-r" = true ∧
  fst (Sample.run (RegisterEncoding "koi8-r" (Some Sample.Koi8) ≫= λ _,
                     charsetEncoding "KOI8-r"))
    = Returns (Some Sample.Koi8, None).
Proof.
  split; [reflexivity|]. split; [reflexivity|].
  exact (f_equal fst
           (registered_key_matches_any_case (H := Sample.externals)
              start "koi8-r" "KOI8-r" (Some Sample.Koi8) eq_refl eq_refl)).
Defined.

Lemma adapters_leave_table_unchanged_witness :
  charsets (afterCalls [CallReader "UTF-8" (Sample.Raw "body");
                        CallWriter "nope" (Sample.Raw "out")] start)
    = charsets start.
Proof.
  apply (adapters_leave_table_unchanged (H := Sample.externals)).
  reflexivity.
Defined.

Lemma quirks_lookup_ignores_case_witness :
  isASCII "X-UTF_8J" = true ∧
  strings_ToLower "X-UTF_8J" = "x-utf_8j" ∧
  charsetEncoding "x-utf_8j" start = (Returns (Some Sample.Utf8, None), start) ∧
  charsetEncoding "X-UTF_8J" start = (Returns (Some Sample.Utf8, None), start) ∧
  charsetEncoding "X-Utf_8j" start = (Returns (Some Sample.Utf8, None), start).
Proof.
  destruct (quirks_lookup_ignores_case (H := Sample.externals)
              start "X-UTF_8J") as (Hother & _ & Hvariant).
  assert (charsetEncoding "x-utf_8j" start
            = (Returns (Some Sample.Utf8, None), start)) as Hlow
    by (vm_compute; reflexivity).
  split; [reflexivity|]. split; [reflexivity|]. split; [exact Hlow|].
  assert (charsetEncoding "X-UTF_8J" start
            = (Returns (Some Sample.Utf8, None), start)) as Hup.
  { destruct (Hother "x-utf_8j") as (Hfound & _).
    - right. split; [reflexivity | left; reflexivity].
    - apply Hfound. exact Hlow. }
  split; [exact Hup|].
  destruct (Hother "X-Utf_8j") as (Hfound & _).
  - left. reflexivity.
  - apply Hfound. exact Hup.
Defined.

End FurtherRuns.
